(** * java.lang.Runtime native bridge (libjava/Runtime.c)

    A shallow embedding of the JNI entry points of
    [src/java.base/share/native/libjava/Runtime.c] and of the engine
    interface they call into.

    Every entry point has the same shape in the C file:
    [return JVM_Service(args);].  The services are declared in [jvm.h] and
    implemented inside the virtual machine; neither is part of this
    translation unit.  The embedding therefore keeps the two sides apart:

    - an entry point is a small program ([Native]) over engine requests
      and over accesses to the objects with static storage duration a C
      translation unit may define;
    - an engine is any function that answers such requests on a state of
      its own ([engine]).

    Results that hold for every engine are results about Runtime.c alone. *)

From Stdlib Require Import ZArith Lia List.
From stdpp Require Import base option list strings gmap.
Import ListNotations.

Local Open Scope Z_scope.

(** ** JNI scalar types *)

Module JNI.

(** [jint] is a signed 32-bit and [jlong] a signed 64-bit integer; both are
    carried as [Z], the range being a predicate. *)
Definition jint := Z.
Definition jlong := Z.

Definition jint_min : Z := - 2 ^ 31.
Definition jint_max : Z := 2 ^ 31 - 1.
Definition jlong_min : Z := - 2 ^ 63.
Definition jlong_max : Z := 2 ^ 63 - 1.

Definition is_jint (z : Z) : Prop := jint_min <= z <= jint_max.
Definition is_jlong (z : Z) : Prop := jlong_min <= z <= jlong_max.

(** Two's complement wrap-around to [w] bits. *)
Definition wrap (w : Z) (z : Z) : Z :=
  (z + 2 ^ (w - 1)) mod 2 ^ w - 2 ^ (w - 1).

(** Conversion of the operand of [return] to the declared result type of
    the function. *)
Definition to_jint (z : Z) : jint := wrap 32 z.
Definition to_jlong (z : Z) : jlong := wrap 64 z.

(** [JNIEnv *] and [jobject] are pointers: an address, [NULL] being 0.
    [jobjectArray] is a [jobject] by typedef. *)
Definition JNIEnv := Z.
Definition jobject := Z.
Definition jobjectArray := jobject.
Definition NULL : jobject := 0.

End JNI.
Export JNI.

(** ** The engine interface (jvm.h)

    One constructor per service called by Runtime.c, with the argument list
    of the call site.  The index is the type of the value the call
    expression yields: an integer, or nothing for [JVM_GC]. *)

Inductive JVM : Type -> Type :=
| JVM_FreeMemory : JVM Z
| JVM_TotalMemory : JVM Z
| JVM_MaxMemory : JVM Z
| JVM_GC : JVM unit
| JVM_ActiveProcessorCount : JVM Z
| JVM_SizeOf (obj : jobject) : JVM Z
| JVM_GetReferencedObjects (env : JNIEnv) (obj : jobject) (ref_buf : jobjectArray) : JVM Z
| JVM_AddressOf (field : jobject) : JVM Z
| JVM_FieldOffsetOf (field : jobject) : JVM Z
| JVM_FieldSizeOf (field : jobject) : JVM Z.

(** A request made of the engine, with its result type packed. *)
Record invocation := Inv { inv_type : Type; inv_call : JVM inv_type }.
Arguments Inv {inv_type} inv_call.

(** ** Native code as a program over engine requests

    Besides returning and calling into the engine, a C function can read
    and write the objects with static storage duration of its translation
    unit (file-scope variables and [static] locals), named here by their
    identifier.  They are what a native library has for state of its own:
    they outlive a call and are shared by all calls. *)

Inductive Native (R : Type) : Type :=
| Return (r : R)
| Invoke {X : Type} (c : JVM X) (k : X -> Native R)
| Load (x : string) (k : Z -> Native R)
| Store (x : string) (v : Z) (k : Native R).
Arguments Return {R} r.
Arguments Invoke {R X} c k.
Arguments Load {R} x k.
Arguments Store {R} x v k.

Fixpoint bind {A B : Type} (p : Native A) (f : A -> Native B) : Native B :=
  match p with
  | Return a => f a
  | Invoke c k => Invoke c (fun x => bind (k x) f)
  | Load x k => Load x (fun v => bind (k v) f)
  | Store x v k => Store x v (bind k f)
  end.

Definition call {X : Type} (c : JVM X) : Native X := Invoke c Return.

Declare Scope native_scope.
Delimit Scope native_scope with native.
Notation "x <- p ;; q" := (bind p (fun x => q))
  (at level 20, p at level 99, q at level 200, right associativity) : native_scope.
Local Open Scope native_scope.

(** ** Runtime.c

    Each function below is the C function of the same name.  A call
    expression [JVM_Service(args)] is a request [call (JVM_Service args)];
    [return e;] converts [e] to the result type the function is declared
    with.  Since jvm.h is not among the sources, the type of the call
    expression is left open: the engine yields an integer, and the
    conversion is the identity exactly when that integer is of the result
    type already. *)

Definition Java_java_lang_Runtime_freeMemory (env : JNIEnv) (this : jobject)
  : Native jlong :=
  r <- call JVM_FreeMemory ;; Return (to_jlong r).

Definition Java_java_lang_Runtime_totalMemory (env : JNIEnv) (this : jobject)
  : Native jlong :=
  r <- call JVM_TotalMemory ;; Return (to_jlong r).

Definition Java_java_lang_Runtime_maxMemory (env : JNIEnv) (this : jobject)
  : Native jlong :=
  r <- call JVM_MaxMemory ;; Return (to_jlong r).

Definition Java_java_lang_Runtime_gc (env : JNIEnv) (this : jobject)
  : Native unit :=
  call JVM_GC.

Definition Java_java_lang_Runtime_availableProcessors (env : JNIEnv) (this : jobject)
  : Native jint :=
  r <- call JVM_ActiveProcessorCount ;; Return (to_jint r).

Definition Java_java_lang_Runtime_sizeOf0 (env : JNIEnv) (this : jobject)
    (obj : jobject) : Native jlong :=
  r <- call (JVM_SizeOf obj) ;; Return (to_jlong r).

Definition Java_java_lang_Runtime_getReferences0 (env : JNIEnv) (this : jobject)
    (obj : jobject) (ref_buf : jobjectArray) : Native jint :=
  r <- call (JVM_GetReferencedObjects env obj ref_buf) ;; Return (to_jint r).

Definition Java_java_lang_Runtime_addressOf0 (env : JNIEnv) (this : jobject)
    (field : jobject) : Native jlong :=
  r <- call (JVM_AddressOf field) ;; Return (to_jlong r).

Definition Java_java_lang_Runtime_fieldOffsetOf0 (env : JNIEnv) (this : jobject)
    (field : jobject) : Native jlong :=
  r <- call (JVM_FieldOffsetOf field) ;; Return (to_jlong r).

Definition Java_java_lang_Runtime_fieldSizeOf0 (env : JNIEnv) (this : jobject)
    (field : jobject) : Native jlong :=
  r <- call (JVM_FieldSizeOf field) ;; Return (to_jlong r).

(** ** The entry points as one family

    [entry_point R] names a call of one native method with its actual
    arguments, one constructor per function of Runtime.c; [native] is the
    body Runtime.c gives it. *)

Inductive entry_point : Type -> Type :=
| freeMemory (env : JNIEnv) (this : jobject) : entry_point Z
| totalMemory (env : JNIEnv) (this : jobject) : entry_point Z
| maxMemory (env : JNIEnv) (this : jobject) : entry_point Z
| gc (env : JNIEnv) (this : jobject) : entry_point unit
| availableProcessors (env : JNIEnv) (this : jobject) : entry_point Z
| sizeOf0 (env : JNIEnv) (this : jobject) (obj : jobject) : entry_point Z
| getReferences0 (env : JNIEnv) (this : jobject) (obj : jobject)
    (ref_buf : jobjectArray) : entry_point Z
| addressOf0 (env : JNIEnv) (this : jobject) (field : jobject) : entry_point Z
| fieldOffsetOf0 (env : JNIEnv) (this : jobject) (field : jobject) : entry_point Z
| fieldSizeOf0 (env : JNIEnv) (this : jobject) (field : jobject) : entry_point Z.

Definition native {R : Type} (op : entry_point R) : Native R :=
  match op with
  | freeMemory env this => Java_java_lang_Runtime_freeMemory env this
  | totalMemory env this => Java_java_lang_Runtime_totalMemory env this
  | maxMemory env this => Java_java_lang_Runtime_maxMemory env this
  | gc env this => Java_java_lang_Runtime_gc env this
  | availableProcessors env this => Java_java_lang_Runtime_availableProcessors env this
  | sizeOf0 env this obj => Java_java_lang_Runtime_sizeOf0 env this obj
  | getReferences0 env this obj ref_buf =>
      Java_java_lang_Runtime_getReferences0 env this obj ref_buf
  | addressOf0 env this field => Java_java_lang_Runtime_addressOf0 env this field
  | fieldOffsetOf0 env this field => Java_java_lang_Runtime_fieldOffsetOf0 env this field
  | fieldSizeOf0 env this field => Java_java_lang_Runtime_fieldSizeOf0 env this field
  end.

(** The C result type each entry point is declared with. *)
Inductive ctype := Tvoid | Tjint | Tjlong.

Definition result_type {R : Type} (op : entry_point R) : ctype :=
  match op with
  | gc _ _ => Tvoid
  | availableProcessors _ _ | getReferences0 _ _ _ _ => Tjint
  | _ => Tjlong
  end.

Definition in_ctype (t : ctype) (z : Z) : Prop :=
  match t with
  | Tvoid => True
  | Tjint => is_jint z
  | Tjlong => is_jlong z
  end.

(** The integer an entry point hands back, if any. *)
Definition as_integer {R : Type} (op : entry_point R) : R -> Z :=
  match op in entry_point R return R -> Z with
  | gc _ _ => fun _ => 0
  | _ => fun z => z
  end.

(** The engine service behind each entry point, with the arguments the
    entry point received. *)
Definition service {R : Type} (op : entry_point R) : JVM R :=
  match op with
  | freeMemory _ _ => JVM_FreeMemory
  | totalMemory _ _ => JVM_TotalMemory
  | maxMemory _ _ => JVM_MaxMemory
  | gc _ _ => JVM_GC
  | availableProcessors _ _ => JVM_ActiveProcessorCount
  | sizeOf0 _ _ obj => JVM_SizeOf obj
  | getReferences0 env _ obj ref_buf => JVM_GetReferencedObjects env obj ref_buf
  | addressOf0 _ _ field => JVM_AddressOf field
  | fieldOffsetOf0 _ _ field => JVM_FieldOffsetOf field
  | fieldSizeOf0 _ _ field => JVM_FieldSizeOf field
  end.

(** The conversion [return] applies in each entry point. *)
Definition returned {R : Type} (op : entry_point R) : R -> R :=
  match op in entry_point R return R -> R with
  | gc _ _ => fun u => u
  | availableProcessors _ _ => to_jint
  | getReferences0 _ _ _ _ => to_jint
  | _ => to_jlong
  end.

(** ** Engines and execution

    An engine answers each request on its own state and says which
    exception, if any, is pending in the calling thread: a native method
    has no other way to fail than to return with an exception pending. *)

Record engine (St : Type) := Engine {
  throwable : Type;
  serve : forall X : Type, JVM X -> St -> X * St;
  ExceptionOccurred : St -> option throwable
}.
Arguments throwable {St} _.
Arguments serve {St} _ {X} _ _.
Arguments ExceptionOccurred {St} _ _.

(** What a run of native code leaves behind: the value returned, the engine
    state, and the requests made of the engine, oldest first. *)
Record outcome (St R : Type) := Outcome {
  result : R;
  final : St;
  requests : list invocation
}.
Arguments Outcome {St R} _ _ _.
Arguments result {St R} _.
Arguments final {St R} _.
Arguments requests {St R} _.

(** The static storage of the library: the value of each object that has
    been written; an object never written holds 0, as C initialises it. *)
Abbreviation statics := (gmap string Z).

Fixpoint exec {St R : Type} (E : engine St) (p : Native R) (s : St) (g : statics)
  : outcome St R * statics :=
  match p with
  | Return r => (Outcome r s [], g)
  | Invoke c k =>
      let '(x, s1) := serve E c s in
      let '(o, g1) := exec E (k x) s1 g in
      (Outcome (result o) (final o) (Inv c :: requests o), g1)
  | Load x k => exec E (k (default 0 (g !! x))) s g
  | Store x v k => exec E k s (<[x := v]> g)
  end.

(** A run from the library's initial static storage. *)
Definition run {St R : Type} (E : engine St) (p : Native R) (s : St) : outcome St R :=
  (exec E p s ∅).1.

(** ** A reference engine

    The services themselves live inside the virtual machine and are not
    part of libjava.  [SpecVM] is an executable engine written from the
    specification of the bridge; properties that depend on what the
    services compute are stated against it, and it serves as the concrete
    engine wherever a theorem about all engines is instantiated. *)

Module SpecVM.

(** Modelled from the spec: the entities handles refer to (JVM heap, not in
    the sources).  A managed object with its shallow size and the objects
    it directly references; a field descriptor with the address, offset and
    size of the field's storage; a reference output buffer, a fixed-capacity
    ordered sequence of object-handle slots. *)
Inductive entity :=
| Object (shallow_size : Z) (refs : list jobject)
| FieldDescriptor (address offset size : Z)
| RefBuffer (slots : list jobject).

(** Modelled from the spec: the error taxonomy of the engine (not in the
    sources).  The engine modelled here implements every service, so it
    raises [InvalidHandle] only. *)
Inductive error := InvalidHandle | UnsupportedOperation.

(** Modelled from the spec: the engine state the services read and write
    (not in the sources): the three memory scalars, the value standing for
    an unbounded maximum, the processor count, the live entities by handle,
    the collection requests received, and the pending exception. *)
Record state := State {
  free_bytes : Z;
  total_bytes : Z;
  max_bytes : option Z;
  unbounded : Z;
  processors : Z;
  live : gmap Z entity;
  gc_requests : nat;
  pending : option error
}.

Definition raise (e : error) (s : state) : state :=
  State (free_bytes s) (total_bytes s) (max_bytes s) (unbounded s)
        (processors s) (live s) (gc_requests s) (Some e).

Definition with_live (m : gmap Z entity) (s : state) : state :=
  State (free_bytes s) (total_bytes s) (max_bytes s) (unbounded s)
        (processors s) m (gc_requests s) (pending s).

Definition with_gc_request (s : state) : state :=
  State (free_bytes s) (total_bytes s) (max_bytes s) (unbounded s)
        (processors s) (live s) (S (gc_requests s)) (pending s).

(** Modelled from the spec: a handle is valid when it is not null and
    refers to a currently live entity (JVM handle resolution, not in the
    sources). *)
Definition resolve (s : state) (h : jobject) : option entity :=
  if decide (h = NULL) then None else live s !! h.

(** Modelled from the spec: the memory-query services return the three
    memory scalars independently, as pure reads (JVM_FreeMemory,
    JVM_TotalMemory, JVM_MaxMemory, not in the sources). *)
Definition memory_free (s : state) : Z * state := (free_bytes s, s).
Definition memory_total (s : state) : Z * state := (total_bytes s, s).
Definition memory_max (s : state) : Z * state :=
  (match max_bytes s with Some m => m | None => unbounded s end, s).

(** Modelled from the spec: the GC-request service takes no parameter,
    returns no result and only records the request; whether and when a
    collection runs is the engine's own business (JVM_GC, not in the
    sources). *)
Definition gc_request (s : state) : unit * state := (tt, with_gc_request s).

(** Modelled from the spec: the processor-count service returns the
    engine's current view of usable processors (JVM_ActiveProcessorCount,
    not in the sources). *)
Definition processor_count (s : state) : Z * state := (processors s, s).

(** Modelled from the spec: shallow size of the object, or [InvalidHandle]
    (JVM_SizeOf, not in the sources). *)
Definition size_of (obj : jobject) (s : state) : Z * state :=
  match resolve s obj with
  | Some (Object size _) => (size, s)
  | _ => (0, raise InvalidHandle s)
  end.

(** Writing found references into successive slots from index [i] on; a
    write past the capacity of the buffer does not happen. *)
Fixpoint store_refs (i : nat) (refs slots : list jobject) : list jobject :=
  match refs with
  | [] => slots
  | r :: refs' => store_refs (S i) refs' (<[i := r]> slots)
  end.

(** Modelled from the spec: writes the references found into the buffer up
    to its capacity and returns the total found, which may exceed the
    capacity; [InvalidHandle] on a bad handle, nothing written
    (JVM_GetReferencedObjects, not in the sources). *)
Definition referenced_objects (env : JNIEnv) (obj : jobject)
    (ref_buf : jobjectArray) (s : state) : Z * state :=
  match resolve s obj, resolve s ref_buf with
  | Some (Object _ refs), Some (RefBuffer slots) =>
      (Z.of_nat (length refs),
       with_live (<[ref_buf := RefBuffer (store_refs 0 refs slots)]> (live s)) s)
  | _, _ => (0, raise InvalidHandle s)
  end.

(** Modelled from the spec: raw address, byte offset and byte size of the
    field's storage, or [InvalidHandle] (JVM_AddressOf, JVM_FieldOffsetOf,
    JVM_FieldSizeOf, not in the sources). *)
Definition address_of (field : jobject) (s : state) : Z * state :=
  match resolve s field with
  | Some (FieldDescriptor address _ _) => (address, s)
  | _ => (0, raise InvalidHandle s)
  end.

Definition field_offset_of (field : jobject) (s : state) : Z * state :=
  match resolve s field with
  | Some (FieldDescriptor _ offset _) => (offset, s)
  | _ => (0, raise InvalidHandle s)
  end.

Definition field_size_of (field : jobject) (s : state) : Z * state :=
  match resolve s field with
  | Some (FieldDescriptor _ _ size) => (size, s)
  | _ => (0, raise InvalidHandle s)
  end.

Definition answer {X : Type} (c : JVM X) : state -> X * state :=
  match c in JVM X return state -> X * state with
  | JVM_FreeMemory => memory_free
  | JVM_TotalMemory => memory_total
  | JVM_MaxMemory => memory_max
  | JVM_GC => gc_request
  | JVM_ActiveProcessorCount => processor_count
  | JVM_SizeOf obj => size_of obj
  | JVM_GetReferencedObjects env obj ref_buf => referenced_objects env obj ref_buf
  | JVM_AddressOf field => address_of field
  | JVM_FieldOffsetOf field => field_offset_of field
  | JVM_FieldSizeOf field => field_size_of field
  end.

Definition vm : engine state :=
  {| throwable := error; serve := @answer; ExceptionOccurred := pending |}.

(** A state to run things on: an object with two references, one with
    none, a field descriptor, and buffers of capacity 1, 2 and 3. *)
Definition heap0 : gmap Z entity :=
  <[ 16 := Object 24 [32; 48] ]>
  (<[ 32 := Object 16 [] ]>
  (<[ 48 := FieldDescriptor 4120 12 4 ]>
  (<[ 64 := RefBuffer [0] ]>
  (<[ 80 := RefBuffer [0; 0; 0] ]>
  (<[ 96 := RefBuffer [16; 16] ]> ∅))))).

Definition s0 : state :=
  {| free_bytes := 1000; total_bytes := 4096; max_bytes := Some 8192;
     unbounded := jlong_max; processors := 4; live := heap0;
     gc_requests := 0; pending := None |}.

End SpecVM.


(** ** Notions the statements use *)





(** The [JNIEnv] pointer a request hands to the engine, if it hands one. *)
Definition env_passed {X : Type} (c : JVM X) : option JNIEnv :=
  match c with
  | JVM_GetReferencedObjects env _ _ => Some env
  | _ => None
  end.

(** A call of some entry point, its result type packed. *)
Record call_site := Site { site_type : Type; site_op : entry_point site_type }.
Arguments Site {site_type} site_op.

(** Earlier calls of the bridge, made one after the other, results dropped. *)
Fixpoint replay (h : list call_site) : Native unit :=
  match h with
  | [] => Return tt
  | c :: h' => _ <- native (site_op c) ;; replay h'
  end.

(** The same call made through another [JNIEnv] and on another receiver. *)
Definition with_receiver (env' : JNIEnv) (this' : jobject) {R : Type}
    (op : entry_point R) : entry_point R :=
  match op with
  | freeMemory _ _ => freeMemory env' this'
  | totalMemory _ _ => totalMemory env' this'
  | maxMemory _ _ => maxMemory env' this'
  | gc _ _ => gc env' this'
  | availableProcessors _ _ => availableProcessors env' this'
  | sizeOf0 _ _ obj => sizeOf0 env' this' obj
  | getReferences0 _ _ obj ref_buf => getReferences0 env' this' obj ref_buf
  | addressOf0 _ _ field => addressOf0 env' this' field
  | fieldOffsetOf0 _ _ field => fieldOffsetOf0 env' this' field
  | fieldSizeOf0 _ _ field => fieldSizeOf0 env' this' field
  end.

Definition is_getReferences0 {R : Type} (op : entry_point R) : bool :=
  match op with
  | getReferences0 _ _ _ _ => true
  | _ => false
  end.

(** The object or field-descriptor handle an introspection call is given. *)
Definition introspected {R : Type} (op : entry_point R) : option jobject :=
  match op with
  | sizeOf0 _ _ obj => Some obj
  | getReferences0 _ _ obj _ => Some obj
  | addressOf0 _ _ field => Some field
  | fieldOffsetOf0 _ _ field => Some field
  | fieldSizeOf0 _ _ field => Some field
  | _ => None
  end.

(** An entry point taking a handle validates it before forwarding when a
    null handle is turned away: the call returns without any request
    reaching the engine, whatever the engine. *)
Definition validates_before_forwarding {R : Type}
    (f : jobject -> Native R) : Prop :=
  forall (St : Type) (E : engine St) (s : St), requests (run E (f NULL) s) = [].

(** ** Requests and call sequences *)

(** The request a call puts to the engine, as it appears in the log. *)
Definition request_of (c : call_site) : invocation := Inv (service (site_op c)).

(** The engine state after the service behind a call has answered. *)
Definition engine_step {St : Type} (E : engine St) (s : St) (c : call_site) : St :=
  (serve E (service (site_op c)) s).2.


Definition request_env (i : invocation) : option JNIEnv := env_passed (inv_call i).


(** The width in bits of a C result type; [Tvoid] carries no value. *)
Definition width (t : ctype) : Z :=
  match t with
  | Tvoid => 0
  | Tjint => 32
  | Tjlong => 64
  end.
(** * Properties *)

(** ** Integer conversions *)

Section Conversions.

Lemma wrap_range (w z : Z) :
  0 < w -> - 2 ^ (w - 1) <= wrap w z <= 2 ^ (w - 1) - 1.
Proof.
  intros Hw. unfold wrap.
  assert (Hp : 2 ^ w = 2 * 2 ^ (w - 1)).
  { rewrite <- Z.pow_succ_r by lia. f_equal. lia. }
  assert (Hpos : 0 < 2 ^ (w - 1)) by (apply Z.pow_pos_nonneg; lia).
  pose proof (Z.mod_pos_bound (z + 2 ^ (w - 1)) (2 ^ w)) as Hm.
  lia.
Qed.

Lemma wrap_id (w z : Z) :
  0 < w -> - 2 ^ (w - 1) <= z <= 2 ^ (w - 1) - 1 -> wrap w z = z.
Proof.
  intros Hw Hz. unfold wrap.
  assert (Hp : 2 ^ w = 2 * 2 ^ (w - 1)).
  { rewrite <- Z.pow_succ_r by lia. f_equal. lia. }
  rewrite Z.mod_small by lia. lia.
Qed.

Lemma to_jint_range (z : Z) : is_jint (to_jint z).
Proof. apply (wrap_range 32 z). lia. Qed.

Lemma to_jlong_range (z : Z) : is_jlong (to_jlong z).
Proof. apply (wrap_range 64 z). lia. Qed.

Lemma to_jint_id (z : Z) : is_jint z -> to_jint z = z.
Proof. intros Hz. apply (wrap_id 32 z); [lia | exact Hz]. Qed.

Lemma to_jlong_id (z : Z) : is_jlong z -> to_jlong z = z.
Proof. intros Hz. apply (wrap_id 64 z); [lia | exact Hz]. Qed.

End Conversions.

(** ** One request per call *)

Section AnyEngine.

Context {St : Type} (E : engine St).

Lemma exec_bind {A B : Type} (p : Native A) (f : A -> Native B) :
  forall (s : St) (g : statics),
    exec E (bind p f) s g =
    let '(o, g1) := exec E p s g in
    let '(o', g2) := exec E (f (result o)) (final o) g1 in
    (Outcome (result o') (final o') (requests o ++ requests o'), g2).
Proof.
  induction p as [a | X c k IH | x k IH | x v k IH]; intros s g; simpl.
  - by destruct (exec E (f a) s g) as [[r s' l] g2].
  - destruct (serve E c s) as [y s1]. rewrite IH.
    destruct (exec E (k y) s1 g) as [o g1]. cbn [result final requests].
    by destruct (exec E (f (result o)) (final o) g1) as [o' g2].
  - apply IH.
  - apply IH.
Qed.

(** Every entry point is one request, then [return]; the static storage is
    neither read nor written. *)
Lemma exec_native {R : Type} (op : entry_point R) (s : St) (g : statics) :
  exec E (native op) s g =
  (Outcome (returned op (serve E (service op) s).1)
           (serve E (service op) s).2
           [Inv (service op)], g).
Proof.
  destruct op; simpl; by destruct (serve E _ s).
Qed.

Lemma exec_replay (h : list call_site) : forall (s : St) (g : statics),
  exec E (replay h) s g =
  (Outcome tt (fold_left (engine_step E) h s) (map request_of h), g).
Proof.
  induction h as [| c h IH]; intros s g; [reflexivity |].
  cbn [replay]. rewrite exec_bind, exec_native. cbn [result final requests].
  rewrite IH. reflexivity.
Qed.

(** Every entry point is one request, then [return]. *)
Lemma run_native {R : Type} (op : entry_point R) (s : St) :
  run E (native op) s =
  Outcome (returned op (serve E (service op) s).1)
          (serve E (service op) s).2
          [Inv (service op)].
Proof. unfold run. by rewrite exec_native. Qed.

Lemma returned_id {R : Type} (op : entry_point R) (r : R) :
  in_ctype (result_type op) (as_integer op r) -> returned op r = r.
Proof.
  destruct op; simpl; intros H;
    first [reflexivity | by apply to_jlong_id | by apply to_jint_id].
Qed.

Lemma requests_native_nonempty {R : Type} (op : entry_point R) (s : St) :
  requests (run E (native op) s) <> [].
Proof. by rewrite run_native. Qed.

End AnyEngine.

(** Rewrites the run of the entry point [op], written with its C name. *)
Ltac forwarded E op s :=
  let H := fresh "Hrun" in
  pose proof (run_native E op s) as H; cbn [native] in H;
  unfold jint, jlong in *; rewrite H; clear H.

(** ** C1: pass-through *)

(** C1.  For each entry point of Runtime.c, and for every engine and engine
    state: a call makes exactly one request of the engine, the request for
    the service of that entry point; it returns the value the service
    yields, unchanged (the service being declared in jvm.h with the result
    type of the entry point); and it leaves the engine, the pending
    exception included, exactly as the service left it.  Nothing is retried
    and no other value is substituted. *)
Theorem bridge_forwards_once {St : Type} (E : engine St) {R : Type}
    (op : entry_point R) (s : St) :
  in_ctype (result_type op) (as_integer op (serve E (service op) s).1) ->
  let o := run E (native op) s in
  requests o = [Inv (service op)] /\
  result o = (serve E (service op) s).1 /\
  final o = (serve E (service op) s).2 /\
  ExceptionOccurred E (final o) = ExceptionOccurred E (serve E (service op) s).2.
Proof.
  intros Hty. simpl. rewrite run_native. simpl.
  rewrite (returned_id op _ Hty). auto.
Qed.

Lemma bridge_forwards_once_witness :
  let o := run SpecVM.vm (native (getReferences0 1 2 7 96)) SpecVM.s0 in
  requests o = [Inv (JVM_GetReferencedObjects 1 7 96)] /\
  result o = 0 /\
  final o = SpecVM.raise SpecVM.InvalidHandle SpecVM.s0 /\
  SpecVM.pending (final o) = Some SpecVM.InvalidHandle.
Proof.
  apply (bridge_forwards_once SpecVM.vm (getReferences0 1 2 7 96) SpecVM.s0).
  vm_compute. split; discriminate.
Defined.

(** ** C4: no validation in the bridge *)

(** C4, as stated, fails: [sizeOf0] does not validate its handle before
    forwarding.  Called with the null handle it still sends the request, null
    handle and all, to the engine. *)
Lemma sizeOf0_forwards_null_handle :
  ~ validates_before_forwarding (Java_java_lang_Runtime_sizeOf0 1 2) /\
  requests (run SpecVM.vm (Java_java_lang_Runtime_sizeOf0 1 2 NULL) SpecVM.s0)
  = [Inv (JVM_SizeOf NULL)].
Proof.
  split; [| reflexivity].
  intros H. specialize (H _ SpecVM.vm SpecVM.s0). discriminate H.
Qed.

(** C4, amended.  No entry point of Runtime.c checks its arguments: for
    every value of every argument, null handles included, the call sends
    the engine the one request of its service carrying the object, buffer
    and field handles exactly as received; no entry point that takes a
    handle validates it before forwarding. *)
Theorem bridge_forwards_unchecked :
  (forall (St : Type) (E : engine St) (R : Type) (op : entry_point R) (s : St),
     requests (run E (native op) s) = [Inv (service op)]) /\
  (forall env this, ~ validates_before_forwarding
                      (Java_java_lang_Runtime_sizeOf0 env this)) /\
  (forall env this ref_buf, ~ validates_before_forwarding
      (fun obj => Java_java_lang_Runtime_getReferences0 env this obj ref_buf)) /\
  (forall env this obj, ~ validates_before_forwarding
      (fun ref_buf => Java_java_lang_Runtime_getReferences0 env this obj ref_buf)) /\
  (forall env this, ~ validates_before_forwarding
                      (Java_java_lang_Runtime_addressOf0 env this)) /\
  (forall env this, ~ validates_before_forwarding
                      (Java_java_lang_Runtime_fieldOffsetOf0 env this)) /\
  (forall env this, ~ validates_before_forwarding
                      (Java_java_lang_Runtime_fieldSizeOf0 env this)).
Proof.
  split.
  { intros St E R op s. by rewrite run_native. }
  repeat split; intros; intros H; specialize (H _ SpecVM.vm SpecVM.s0).
  - exact (requests_native_nonempty SpecVM.vm (sizeOf0 env this NULL) _ H).
  - exact (requests_native_nonempty SpecVM.vm (getReferences0 env this NULL ref_buf) _ H).
  - exact (requests_native_nonempty SpecVM.vm (getReferences0 env this obj NULL) _ H).
  - exact (requests_native_nonempty SpecVM.vm (addressOf0 env this NULL) _ H).
  - exact (requests_native_nonempty SpecVM.vm (fieldOffsetOf0 env this NULL) _ H).
  - exact (requests_native_nonempty SpecVM.vm (fieldSizeOf0 env this NULL) _ H).
Qed.

(** ** C5: no state of its own *)

(** C5.  The bridge has no state of its own.  Whatever the static
    storage of the library holds, a call of an entry point does not read
    it: the outcome is the one request, the engine's answer converted to
    the result type, and the engine's state, none of which depends on the
    storage; and does not write it: the storage is the same afterwards.
    The same goes for any sequence of calls, so nothing persists from one
    call to the next outside the engine: a call made after any earlier
    calls behaves as its arguments and the engine's answer alone
    determine. *)
Theorem bridge_is_stateless {St : Type} (E : engine St) (h : list call_site)
    {R : Type} (op : entry_point R) (s : St) (g : statics) :
  let s' := final (run E (replay h) s) in
  exec E (native op) s g
  = (Outcome (returned op (serve E (service op) s).1)
             (serve E (service op) s).2
             [Inv (service op)], g) /\
  (exec E (replay h) s g).2 = g /\
  (exec E (_ <- replay h ;; native op) s g).2 = g /\
  (exec E (_ <- replay h ;; native op) s g).1
  = Outcome (returned op (serve E (service op) s').1)
            (serve E (service op) s').2
            (requests (run E (replay h) s) ++ [Inv (service op)]).
Proof.
  cbv zeta. unfold run.
  rewrite exec_bind, !exec_replay, !exec_native.
  cbn [fst snd result final requests]. auto.
Qed.

Lemma bridge_is_stateless_witness :
  let earlier := [Site (gc 1 2); Site (getReferences0 1 2 16 80); Site (sizeOf0 3 4 0)] in
  let g : statics := {[ "calls" := 3 ]} in
  (exec SpecVM.vm (replay earlier) SpecVM.s0 g).2 = g /\
  (exec SpecVM.vm (_ <- replay earlier ;; native (totalMemory 1 2)) SpecVM.s0 g).2 = g /\
  result (exec SpecVM.vm (_ <- replay earlier ;; native (totalMemory 1 2)) SpecVM.s0 g).1
  = 4096.
Proof.
  cbv zeta.
  destruct (bridge_is_stateless SpecVM.vm
              [Site (gc 1 2); Site (getReferences0 1 2 16 80); Site (sizeOf0 3 4 0)]
              (totalMemory 1 2) SpecVM.s0 {[ "calls" := 3 ]})
    as (_ & Hh & Hw & Ho).
  split; [exact Hh |]. split; [exact Hw |]. rewrite Ho. reflexivity.
Defined.

(** Static storage is a real channel: a function that counts its calls in
    a file-scope variable answers differently from one call to the next. *)
Lemma static_counter_is_not_stateless {St : Type} (E : engine St) (s : St) :
  let tick := Load "calls" (fun n => Store "calls" (n + 1) (Return n)) in
  exec E (a <- tick ;; b <- tick ;; Return (a, b)) s ∅
  = (Outcome (0, 1) s [], {[ "calls" := 2 ]}).
Proof. cbv zeta. simpl. by rewrite insert_insert_eq. Qed.

(** ** C7: processor count *)

(** C7.  On every engine whose processor-count service answers with a
    positive [jint], a call of [availableProcessors] returns that very
    number, hence an integer that is at least 1. *)
Theorem availableProcessors_positive {St : Type} (E : engine St)
    (env : JNIEnv) (this : jobject) (s : St) :
  1 <= (serve E JVM_ActiveProcessorCount s).1 <= jint_max ->
  let o := run E (Java_java_lang_Runtime_availableProcessors env this) s in
  1 <= result o /\ result o = (serve E JVM_ActiveProcessorCount s).1.
Proof.
  intros Hpos. cbv zeta.
  forwarded E (availableProcessors env this) s. simpl.
  rewrite to_jint_id; [lia |]. unfold is_jint, jint_min. lia.
Qed.

Lemma availableProcessors_positive_witness :
  let o := run SpecVM.vm (Java_java_lang_Runtime_availableProcessors 1 2) SpecVM.s0 in
  1 <= result o /\ result o = 4.
Proof.
  apply (availableProcessors_positive SpecVM.vm 1 2 SpecVM.s0).
  vm_compute. split; discriminate.
Defined.

(** ** C8: requesting a collection *)

(** C8.  A call of [gc] always comes back, with no result ([tt]); all it
    does is put one collection request to the engine, so the engine is
    left as its request service left it, collected or not; and when the
    engine, operating normally, answers the request without raising, no
    exception is pending on return. *)
Theorem gc_requests_only {St : Type} (E : engine St)
    (env : JNIEnv) (this : jobject) (s : St) :
  run E (Java_java_lang_Runtime_gc env this) s
  = Outcome tt (serve E JVM_GC s).2 [Inv JVM_GC] /\
  (ExceptionOccurred E (serve E JVM_GC s).2 = None ->
   ExceptionOccurred E (final (run E (Java_java_lang_Runtime_gc env this) s)) = None).
Proof.
  forwarded E (gc env this) s. simpl.
  split; [by destruct (serve E JVM_GC s).1 | auto].
Qed.

(** On the reference engine the request is only noted down: the call
    returns with no exception and with the heap as it was, no collection
    having run. *)
Lemma gc_requests_only_witness :
  run SpecVM.vm (Java_java_lang_Runtime_gc 1 2) SpecVM.s0
  = Outcome tt (SpecVM.with_gc_request SpecVM.s0) [Inv JVM_GC] /\
  SpecVM.pending (final (run SpecVM.vm (Java_java_lang_Runtime_gc 1 2) SpecVM.s0)) = None /\
  SpecVM.live (SpecVM.with_gc_request SpecVM.s0) = SpecVM.live SpecVM.s0.
Proof.
  destruct (gc_requests_only SpecVM.vm 1 2 SpecVM.s0) as [Hrun Hexc].
  split; [exact Hrun |]. split; [exact (Hexc eq_refl) | reflexivity].
Defined.

(** ** C9: the environment and the receiver are not used *)

(** C9.  For every entry point other than [getReferences0], the same call
    made through another [JNIEnv] pointer and on another receiver is the
    same program: on every engine and state it makes the same request and
    ends with the same result and engine state. *)
Theorem env_and_receiver_unused {R : Type} (op : entry_point R)
    (env' : JNIEnv) (this' : jobject) :
  is_getReferences0 op = false ->
  native (with_receiver env' this' op) = native op /\
  service (with_receiver env' this' op) = service op /\
  forall (St : Type) (E : engine St) (s : St),
    run E (native (with_receiver env' this' op)) s = run E (native op) s.
Proof.
  intros Hop.
  assert (Hprog : native (with_receiver env' this' op) = native op).
  { destruct op; try reflexivity; discriminate Hop. }
  split; [exact Hprog |].
  split; [destruct op; try reflexivity; discriminate Hop |].
  intros St E s. by rewrite Hprog.
Qed.

Lemma env_and_receiver_unused_witness :
  native (sizeOf0 7 9 16) = native (sizeOf0 1 2 16) /\
  JVM_SizeOf 16 = JVM_SizeOf 16 /\
  forall (St : Type) (E : engine St) (s : St),
    run E (native (sizeOf0 7 9 16)) s = run E (native (sizeOf0 1 2 16)) s.
Proof.
  apply (env_and_receiver_unused (sizeOf0 1 2 16) 7 9). reflexivity.
Defined.

(** ** C10: width of the results *)

(** C10.  Whatever the engine answers, [getReferences0] returns a [jint]:
    the count it conveys lies in the signed 32-bit range, and no total
    outside that range can reach the caller.  [sizeOf0], [addressOf0],
    [fieldOffsetOf0] and [fieldSizeOf0] return a [jlong], which lies in the
    signed 64-bit range and can be a value no [jint] holds. *)
Theorem getReferences0_is_jint :
  (forall (St : Type) (E : engine St) env this obj ref_buf (s : St),
     let r := result (run E (Java_java_lang_Runtime_getReferences0 env this obj ref_buf) s) in
     is_jint r /\ forall k : Z, ~ is_jint k -> r <> k) /\
  (forall (St : Type) (E : engine St) env this h (s : St),
     is_jlong (result (run E (Java_java_lang_Runtime_sizeOf0 env this h) s)) /\
     is_jlong (result (run E (Java_java_lang_Runtime_addressOf0 env this h) s)) /\
     is_jlong (result (run E (Java_java_lang_Runtime_fieldOffsetOf0 env this h) s)) /\
     is_jlong (result (run E (Java_java_lang_Runtime_fieldSizeOf0 env this h) s))) /\
  (exists s : SpecVM.state,
     let r := result (run SpecVM.vm (Java_java_lang_Runtime_sizeOf0 1 2 16) s) in
     r = 2 ^ 31 /\ ~ is_jint r).
Proof.
  split; [| split].
  - intros St E env this obj ref_buf s. cbv zeta.
    forwarded E (getReferences0 env this obj ref_buf) s. simpl.
    split; [apply to_jint_range |].
    intros k Hk Heq. apply Hk. rewrite <- Heq. apply to_jint_range.
  - intros St E env this h s.
    forwarded E (sizeOf0 env this h) s.
    forwarded E (addressOf0 env this h) s.
    forwarded E (fieldOffsetOf0 env this h) s.
    forwarded E (fieldSizeOf0 env this h) s.
    simpl. repeat split; apply to_jlong_range.
  - exists (SpecVM.with_live (<[ 16 := SpecVM.Object (2 ^ 31) [] ]> ∅) SpecVM.s0).
    split; [reflexivity |].
    vm_compute. intros [_ H]. apply H. reflexivity.
Qed.

(** ** The reference engine *)

Section StoreRefs.

Local Open Scope nat_scope.

Implicit Types (refs slots : list jobject) (i j : nat).

Lemma store_refs_length refs : forall i slots,
  length (SpecVM.store_refs i refs slots) = length slots.
Proof.
  induction refs as [| r refs IH]; intros i slots; simpl; [reflexivity |].
  by rewrite IH, length_insert.
Qed.

(** Slots before the first index written keep their content. *)
Lemma store_refs_lookup_before refs : forall i slots j,
  j < i -> SpecVM.store_refs i refs slots !! j = slots !! j.
Proof.
  induction refs as [| r refs IH]; intros i slots j Hj; simpl; [reflexivity |].
  rewrite IH by lia. apply list_lookup_insert_ne. lia.
Qed.

(** Slots past the last reference keep their content. *)
Lemma store_refs_lookup_after refs : forall i slots j,
  i + length refs <= j -> SpecVM.store_refs i refs slots !! j = slots !! j.
Proof.
  induction refs as [| r refs IH]; intros i slots j Hj; simpl in *; [reflexivity |].
  rewrite IH by lia. apply list_lookup_insert_ne. lia.
Qed.

(** A slot within the capacity and within the references found holds the
    reference of its rank. *)
Lemma store_refs_lookup_written refs : forall i slots j,
  i <= j < i + length refs -> j < length slots ->
  SpecVM.store_refs i refs slots !! j = refs !! (j - i).
Proof.
  induction refs as [| r refs IH]; intros i slots j Hj Hc; simpl in *; [lia |].
  destruct (decide (j = i)) as [-> | Hne].
  - rewrite store_refs_lookup_before by lia.
    rewrite list_lookup_insert_eq by lia.
    by replace (i - i) with 0 by lia.
  - rewrite IH by (rewrite ?length_insert; lia).
    by replace (j - i) with (S (j - S i)) by lia.
Qed.

Lemma store_refs_take refs slots :
  take (length refs `min` length slots) (SpecVM.store_refs 0 refs slots)
  = take (length refs `min` length slots) refs.
Proof.
  apply list_eq. intros j.
  destruct (decide (j < length refs `min` length slots)) as [Hlt | Hge].
  - rewrite !lookup_take_lt by exact Hlt.
    rewrite store_refs_lookup_written by lia. f_equal. lia.
  - by rewrite !lookup_take_ge by lia.
Qed.

Lemma store_refs_drop refs slots :
  drop (length refs) (SpecVM.store_refs 0 refs slots) = drop (length refs) slots.
Proof.
  apply list_eq. intros j. rewrite !lookup_drop.
  apply store_refs_lookup_after. lia.
Qed.

End StoreRefs.

Section ReferenceEngine.

Import SpecVM.

Lemma with_live_id (s : state) : with_live (live s) s = s.
Proof. by destruct s. Qed.

Lemma resolve_Some (s : state) (h : jobject) (e : entity) :
  resolve s h = Some e -> h <> NULL /\ live s !! h = Some e.
Proof. unfold resolve. case_decide; [discriminate | auto]. Qed.

Lemma resolve_None (s : state) (h : jobject) :
  h = NULL \/ live s !! h = None -> resolve s h = None.
Proof. unfold resolve. case_decide; [reflexivity | tauto]. Qed.

Lemma resolve_with_live (m : gmap Z entity) (s : state) (h : jobject) :
  h <> NULL -> resolve (with_live m s) h = m !! h.
Proof. unfold resolve. by case_decide. Qed.

End ReferenceEngine.

(** ** C2: enumerating references *)

(** C2.  On the reference engine, for a live object with exactly [k]
    direct references ([k] a [jint], as the count the entry point returns
    is) and a live buffer of capacity [c]: the call returns [k], which may
    exceed [c], and raises nothing; the buffer keeps its capacity, its first
    [min k c] slots hold the first [min k c] references found, the slots
    past the [k]-th keep their content; and when [k = 0] the call returns 0
    and leaves the buffer, and the whole engine state, as it was. *)
Theorem getReferences0_count_and_fill (s : SpecVM.state)
    (env : JNIEnv) (this obj : jobject) (ref_buf : jobjectArray)
    (size : Z) (refs slots : list jobject) :
  SpecVM.resolve s obj = Some (SpecVM.Object size refs) ->
  SpecVM.resolve s ref_buf = Some (SpecVM.RefBuffer slots) ->
  Z.of_nat (length refs) <= jint_max ->
  let k := length refs in
  let c := length slots in
  let o := run SpecVM.vm (Java_java_lang_Runtime_getReferences0 env this obj ref_buf) s in
  result o = Z.of_nat k /\
  SpecVM.pending (final o) = SpecVM.pending s /\
  (exists slots' : list jobject,
     SpecVM.resolve (final o) ref_buf = Some (SpecVM.RefBuffer slots') /\
     length slots' = c /\
     take (k `min` c) slots' = take (k `min` c) refs /\
     drop k slots' = drop k slots) /\
  (k = 0%nat -> result o = 0 /\ final o = s).
Proof.
  intros Hobj Hbuf Hk. cbv zeta.
  forwarded SpecVM.vm (getReferences0 env this obj ref_buf) s.
  cbn [result final service returned SpecVM.vm serve SpecVM.answer].
  unfold SpecVM.referenced_objects. rewrite Hobj, Hbuf.
  cbn [fst snd].
  destruct (resolve_Some _ _ _ Hbuf) as [Hnn Hlive].
  split; [| split; [| split]].
  - apply to_jint_id. unfold is_jint, jint_min. lia.
  - reflexivity.
  - exists (SpecVM.store_refs 0 refs slots).
    rewrite resolve_with_live by exact Hnn.
    rewrite lookup_insert_eq.
    split; [reflexivity |].
    split; [apply store_refs_length |].
    split; [apply store_refs_take | apply store_refs_drop].
  - intros Hzero. destruct refs; [| discriminate Hzero]. simpl.
    split; [reflexivity |].
    rewrite insert_id by exact Hlive. apply with_live_id.
Qed.

Lemma getReferences0_count_and_fill_witness :
  let o := run SpecVM.vm (Java_java_lang_Runtime_getReferences0 1 2 16 64) SpecVM.s0 in
  result o = 2 /\
  SpecVM.pending (final o) = None /\
  (exists slots' : list jobject,
     SpecVM.resolve (final o) 64 = Some (SpecVM.RefBuffer slots') /\
     length slots' = 1%nat /\
     take 1 slots' = [32] /\
     drop 2 slots' = []) /\
  (2%nat = 0%nat -> result o = 0 /\ final o = SpecVM.s0).
Proof.
  apply (getReferences0_count_and_fill SpecVM.s0 1 2 16 64 24 [32; 48] [0]).
  - reflexivity.
  - reflexivity.
  - vm_compute. discriminate.
Defined.

(** ** C3: invalid handles *)

(** C3.  On the reference engine, for each of the five introspection entry
    points: when the object or field-descriptor handle it is given is null
    or refers to nothing live, the call returns with [InvalidHandle]
    pending and has changed nothing else; the live entities, any reference
    buffer among them, are as they were. *)
Theorem introspection_rejects_invalid_handle {R : Type} (op : entry_point R)
    (h : jobject) (s : SpecVM.state) :
  introspected op = Some h ->
  h = NULL \/ SpecVM.live s !! h = None ->
  let o := run SpecVM.vm (native op) s in
  ExceptionOccurred SpecVM.vm (final o) = Some SpecVM.InvalidHandle /\
  final o = SpecVM.raise SpecVM.InvalidHandle s /\
  SpecVM.live (final o) = SpecVM.live s /\
  (forall b : jobject, SpecVM.resolve (final o) b = SpecVM.resolve s b).
Proof.
  intros Hop Hbad. apply resolve_None in Hbad. cbv zeta.
  assert (Hfin : final (run SpecVM.vm (native op) s)
                 = SpecVM.raise SpecVM.InvalidHandle s).
  { rewrite run_native. cbn [final].
    destruct op; simpl in Hop; try discriminate Hop;
      injection Hop as ->;
      cbn [service SpecVM.vm serve SpecVM.answer];
      unfold SpecVM.size_of, SpecVM.referenced_objects, SpecVM.address_of,
             SpecVM.field_offset_of, SpecVM.field_size_of;
      by rewrite Hbad. }
  rewrite Hfin. auto.
Qed.

Lemma introspection_rejects_invalid_handle_witness :
  let o := run SpecVM.vm (native (getReferences0 1 2 7 80)) SpecVM.s0 in
  SpecVM.pending (final o) = Some SpecVM.InvalidHandle /\
  final o = SpecVM.raise SpecVM.InvalidHandle SpecVM.s0 /\
  SpecVM.live (final o) = SpecVM.heap0 /\
  (forall b : jobject, SpecVM.resolve (final o) b = SpecVM.resolve SpecVM.s0 b).
Proof.
  apply (introspection_rejects_invalid_handle (getReferences0 1 2 7 80) 7 SpecVM.s0).
  - reflexivity.
  - right. reflexivity.
Defined.

(** ** Further properties of Runtime.c *)


(** X2.  [getReferences0] puts to the engine the request
    [JVM_GetReferencedObjects(env, obj, ref_buf)]: the [JNIEnv] pointer it
    was called with, then the object, then the buffer.  Its receiver does
    not reach the engine, and it is the one entry point whose request
    carries a [JNIEnv] pointer. *)
Theorem getReferences0_passes_env {St : Type} (E : engine St) (s : St) :
  (forall env this obj ref_buf,
     requests (run E (Java_java_lang_Runtime_getReferences0 env this obj ref_buf) s)
     = [Inv (JVM_GetReferencedObjects env obj ref_buf)]) /\
  (forall env this this' obj ref_buf,
     Java_java_lang_Runtime_getReferences0 env this obj ref_buf
     = Java_java_lang_Runtime_getReferences0 env this' obj ref_buf) /\
  (forall (R : Type) (op : entry_point R),
     map request_env (requests (run E (native op) s)) = [None]
     <-> is_getReferences0 op = false).
Proof.
  split; [| split].
  - intros env this obj ref_buf.
    by forwarded E (getReferences0 env this obj ref_buf) s.
  - reflexivity.
  - intros R op. rewrite run_native. cbn [requests map].
    destruct op; cbn; split; intros H; first [reflexivity | discriminate H].
Qed.

(** X3.  Calls made one after the other reach the engine one request
    each, in the order of the calls and with nothing in between: the log of
    a sequence is the list of the calls' requests, whatever the engine
    answers, and the engine ends in the state its services lead to when
    applied in that order. *)
Theorem calls_compose {St : Type} (E : engine St) (h : list call_site) (s : St) :
  requests (run E (replay h) s) = map request_of h /\
  final (run E (replay h) s) = fold_left (engine_step E) h s /\
  length (requests (run E (replay h) s)) = length h.
Proof.
  unfold run. rewrite exec_replay. cbn [fst requests final].
  repeat split. apply length_map.
Qed.

(** X4.  The bridge keeps whatever the engine keeps: a property of the
    engine state that every service behind the calls of a sequence
    preserves still holds when the sequence has run.  In particular an
    exception left pending by one call stays pending through later calls
    unless the engine itself clears it. *)
Theorem engine_invariant_preserved {St : Type} (E : engine St) (P : St -> Prop)
    (h : list call_site) (s : St) :
  (forall c : call_site, c ∈ h ->
     forall s' : St, P s' -> P (serve E (service (site_op c)) s').2) ->
  P s ->
  P (final (run E (replay h) s)).
Proof.
  unfold run. rewrite exec_replay. cbn [fst final].
  revert s. induction h as [| c h IH]; intros s Hstep Hs; [exact Hs |].
  cbn [fold_left]. apply IH.
  - intros c' Hin. apply Hstep. apply elem_of_cons. by right.
  - apply Hstep; [apply elem_of_cons; by left | exact Hs].
Qed.

Lemma engine_invariant_preserved_witness :
  let h := [Site (sizeOf0 1 2 NULL); Site (gc 1 2); Site (totalMemory 1 2)] in
  let raised (s : SpecVM.state) := SpecVM.pending s = Some SpecVM.InvalidHandle in
  raised (final (run SpecVM.vm (replay [Site (sizeOf0 1 2 NULL)]) SpecVM.s0)) /\
  raised (final (run SpecVM.vm (replay h) SpecVM.s0)).
Proof.
  cbv zeta. split; [reflexivity |].
  apply (engine_invariant_preserved SpecVM.vm
           (fun s => SpecVM.pending s = Some SpecVM.InvalidHandle)
           [Site (gc 1 2); Site (totalMemory 1 2)]
           (final (run SpecVM.vm (replay [Site (sizeOf0 1 2 NULL)]) SpecVM.s0))).
  - intros c Hin s' Hs'.
    apply elem_of_cons in Hin as [-> | Hin]; [exact Hs' |].
    apply list_elem_of_singleton in Hin as ->. exact Hs'.
  - reflexivity.
Defined.



Section Wrap.

Lemma wrap_congruent (w z : Z) : 0 < w -> (wrap w z - z) mod 2 ^ w = 0.
Proof.
  intros Hw. unfold wrap.
  assert (Hm : 0 < 2 ^ w) by (apply Z.pow_pos_nonneg; lia).
  pose proof (Z.div_mod (z + 2 ^ (w - 1)) (2 ^ w) ltac:(lia)) as Hdiv.
  replace ((z + 2 ^ (w - 1)) mod 2 ^ w - 2 ^ (w - 1) - z)
    with ((- ((z + 2 ^ (w - 1)) / 2 ^ w)) * 2 ^ w) by lia.
  apply Z_mod_mult.
Qed.

End Wrap.

(** X6.  What a call returns always is a value of the result type the
    entry point is declared with, equal to the engine's answer modulo 2^32
    for the [jint] entry points and modulo 2^64 for the [jlong] ones; it is
    the engine's answer itself exactly when that answer is of the result
    type.  An answer out of range is never an error, and never a value out
    of range: it comes back wrapped. *)
Theorem result_wraps_to_declared_type {St : Type} (E : engine St) {R : Type}
    (op : entry_point R) (s : St) :
  let answer := (serve E (service op) s).1 in
  let r := result (run E (native op) s) in
  in_ctype (result_type op) (as_integer op r) /\
  (as_integer op r - as_integer op answer) mod 2 ^ width (result_type op) = 0 /\
  (r = answer <-> in_ctype (result_type op) (as_integer op answer)).
Proof.
  cbv zeta. rewrite run_native. cbn [result].
  set (a := (serve E (service op) s).1). clearbody a.
  destruct op; cbn [returned result_type in_ctype as_integer width];
    try (split; [first [apply to_jlong_range | apply to_jint_range] |];
         split; [first [apply (wrap_congruent 64) | apply (wrap_congruent 32)]; lia |];
         split; [intros <-; first [apply to_jlong_range | apply to_jint_range]
                | first [apply to_jlong_id | apply to_jint_id]]).
  split; [exact I |]. split; [reflexivity |]. by split.
Qed.

(** An engine that answers every integer request with 2^32 + 5. *)
Lemma result_wraps_example :
  let E := Engine unit unit
             (fun X (c : JVM X) (s : unit) =>
                match c in JVM X return X * unit with
                | JVM_GC => (tt, s)
                | _ => (2 ^ 32 + 5, s)
                end)
             (fun _ => None) in
  result (run E (Java_java_lang_Runtime_availableProcessors 1 2) tt) = 5 /\
  result (run E (Java_java_lang_Runtime_getReferences0 1 2 16 64) tt) = 5 /\
  result (run E (Java_java_lang_Runtime_sizeOf0 1 2 16) tt) = 2 ^ 32 + 5.
Proof. cbv zeta. repeat split; reflexivity. Qed.
